(** * mermaid-mcp: the adapter of [src/index.ts], embedded and verified

    The development follows the source file top to bottom:
    - JavaScript strings (sequences of UTF-16 code units) with the four
      [String.prototype] methods the adapter calls: [includes], [split],
      [trim], and array indexing of the result of [split];
    - the process state the adapter touches (temporary files, the two
      [process.std*.write] slots) and a state-and-exception monad for the
      [async] functions, with [try]/[catch]/[finally];
    - [render], [generateDiagram] and the two tool handlers;
    - the theorems, one per property of the specification. *)

From Stdlib Require Import ZArith NArith List Ascii String Lia DecimalString.
From Stdlib.Strings Require Import Byte.
From stdpp Require Import base option list gmap.

Local Open Scope N_scope.
Local Open Scope nat_scope.
Local Open Scope list_scope.

(** ** JavaScript strings *)

(** A JavaScript string is a sequence of 16-bit code units. *)
Abbreviation jsstring := (list N).

(** ASCII literals of the source, as code units. *)
Fixpoint js (s : string) : jsstring :=
  match s with
  | EmptyString => []
  | String c t => N_of_ascii c :: js t
  end.

(** [s.startsWith(p)]: the test [indexOf] performs at each position. *)
Fixpoint startsWith (p s : jsstring) : bool :=
  match p, s with
  | [], _ => true
  | _ :: _, [] => false
  | a :: p', b :: s' => N.eqb a b && startsWith p' s'
  end.

(** [s.indexOf(sep)], with [None] for [-1]. *)
Fixpoint indexOf (sep s : jsstring) : option nat :=
  if startsWith sep s then Some 0
  else match s with
       | [] => None
       | _ :: t => S <$> indexOf sep t
       end.

(** [s.includes(sep)]. *)
Definition includes (sep s : jsstring) : bool :=
  match indexOf sep s with
  | Some _ => true
  | None => false
  end.

(** [s.split(sep)] for a non-empty separator: cut at the leftmost
    occurrence, continue after it.  Every cut consumes at least one code
    unit, so [length s] rounds are enough (see [split_unfold]). *)
Fixpoint split_rounds (rounds : nat) (sep s : jsstring) : list jsstring :=
  match rounds with
  | 0 => [s]
  | S k =>
      match indexOf sep s with
      | None => [s]
      | Some i => take i s :: split_rounds k sep (drop (i + length sep) s)
      end
  end.

(** [s.split(sep)]; the empty separator splits between all code units. *)
Definition split (sep s : jsstring) : list jsstring :=
  match sep with
  | [] => (fun c => [c]) <$> s
  | _ :: _ => split_rounds (length s) sep s
  end.

(** WhiteSpace and LineTerminator code units of ECMAScript, the ones
    [trim] removes. *)
Definition isWhiteSpace (c : N) : bool :=
  existsb (N.eqb c)
    [9; 10; 11; 12; 13; 32; 160; 5760; 8232; 8233; 8239; 8287; 12288; 65279]%N
  || (N.leb 8192 c && N.leb c 8202).

Fixpoint trimStart (s : jsstring) : jsstring :=
  match s with
  | [] => []
  | c :: t => if isWhiteSpace c then trimStart t else s
  end.

Definition trimEnd (s : jsstring) : jsstring := rev (trimStart (rev s)).

(** [s.trim()]. *)
Definition trim (s : jsstring) : jsstring := trimEnd (trimStart s).

(** ** Completions *)

(** A thrown value.  The handlers only ask [error instanceof Error] and
    then read [error.message], so a thrown value is an [Error] instance
    with its message, or something else. *)
Inductive JsThrown : Type :=
| ErrorInstance (message : jsstring)
| NonErrorValue (tag : N).

(** How a JavaScript computation ends. *)
Inductive Completion (A : Type) : Type :=
| Normal (a : A)
| Throw (e : JsThrown).
Arguments Normal {A} a.
Arguments Throw {A} e.

(** [TypeError] raised by a method call on [undefined]. *)
Definition undefinedProperty (prop : string) : JsThrown :=
  ErrorInstance
    (js "Cannot read properties of undefined (reading '" ++ js prop ++ js "')").

(** [arr[i].m(...)]: reading an index past the end gives [undefined], and
    calling a method on it throws. *)
Definition elementThen {A} (arr : list jsstring) (i : nat) (prop : string)
    (m : jsstring -> Completion A) : Completion A :=
  match arr !! i with
  | Some x => m x
  | None => Throw (undefinedProperty prop)
  end.

(** The two separators of lines 57-58. *)
Definition mermaidFence : jsstring := js "```mermaid".
Definition closingFence : jsstring := js "```".

(** Lines 55-60 of [generateDiagram]: the value of [content] that is
    written to the input file. *)
Definition stagedContent (diagram : jsstring) (isMarkdown : bool)
    : Completion jsstring :=
  if isMarkdown then
    if includes mermaidFence diagram then
      elementThen (split mermaidFence diagram) 1 "split" (fun inner =>
      elementThen (split closingFence inner) 0 "trim" (fun body =>
      Normal (trim body)))
    else Normal diagram
  else Normal diagram.

(** ** Process state *)

(** The [format] argument, fixed to three literals by the zod schema. *)
Inductive Format : Type := svg | png | pdf.

#[global] Instance Format_eq_dec : EqDecision Format.
Proof. solve_decision. Defined.

(** The literal as it is spliced into the output path. *)
Definition formatName (f : Format) : jsstring :=
  match f with
  | svg => js "svg"
  | png => js "png"
  | pdf => js "pdf"
  end.

(** A value of the slot [process.stdout.write] (or [stderr]): a function
    of the host, or the arrow function [() => true] of line 25. *)
Inductive WriteFn : Type :=
| HostWrite (id : N)
| NoopWrite.

#[global] Instance WriteFn_eq_dec : EqDecision WriteFn.
Proof. solve_decision. Defined.

(** What the adapter asks of the outside, in order.  [EvRun] records the
    two write slots as they are when the engine is entered. *)
Inductive Event : Type :=
| EvWriteFile (path content : jsstring)
| EvRun (inputPath outputPath : jsstring) (outputFormat : Format)
        (stdoutAtCall stderrAtCall : WriteFn)
| EvReadFile (path : jsstring)
| EvUnlink (path : jsstring).

#[global] Instance Event_eq_dec : EqDecision Event.
Proof. solve_decision. Defined.

Record World : Type := mkWorld {
  files : gmap jsstring (list byte);
  stdoutWrite : WriteFn;
  stderrWrite : WriteFn;
  clock : Z;
  trace : list Event
}.

Definition setFiles (fs : gmap jsstring (list byte)) (w : World) : World :=
  mkWorld fs (stdoutWrite w) (stderrWrite w) (clock w) (trace w).
Definition setStdout (f : WriteFn) (w : World) : World :=
  mkWorld (files w) f (stderrWrite w) (clock w) (trace w).
Definition setStderr (f : WriteFn) (w : World) : World :=
  mkWorld (files w) (stdoutWrite w) f (clock w) (trace w).
Definition record (ev : Event) (w : World) : World :=
  mkWorld (files w) (stdoutWrite w) (stderrWrite w) (clock w) (trace w ++ [ev]).

(** What a call of the external engine leaves behind: the files, the two
    write slots (other tasks of the process may assign them while the call
    is awaited) and whether it threw. *)
Record EngineOutcome : Type := mkEngineOutcome {
  engineFiles : gmap jsstring (list byte);
  engineStdout : WriteFn;
  engineStderr : WriteFn;
  engineThrown : option JsThrown
}.

Inductive Encoding : Type := Base64 | Utf8.

(** A failed [fs.writeFile]: the error, and what the attempt left at the
    path.  The file is opened with flag ['w'] before anything is written:
    a failure at the open leaves the path untouched ([None]); a failure
    after it leaves a created or truncated file holding the bytes written
    so far ([Some]). *)
Record WriteFailure : Type := mkWriteFailure {
  writeError : JsThrown;
  writeLeft : option (list byte)
}.

(** Everything the adapter imports: [os], [path], [fs] failures, [Buffer]
    encodings and [run] of mermaid-cli.  None of it is code of the
    repository, so all of it is a parameter. *)
Record Host : Type := mkHost {
  tmpdir : jsstring;
  join : jsstring -> jsstring -> jsstring;
  encodeUtf8 : jsstring -> list byte;
  bufferToString : Encoding -> list byte -> jsstring;
  run : jsstring -> jsstring -> Format -> World -> EngineOutcome;
  writeFault : jsstring -> gmap jsstring (list byte) -> option WriteFailure;
  readFault : jsstring -> gmap jsstring (list byte) -> option JsThrown;
  unlinkFault : jsstring -> gmap jsstring (list byte) -> option JsThrown
}.

(** ** The monad of [async] functions: state, and completions that keep
    the state when they throw. *)
Definition Async (A : Type) : Type := World -> Completion A * World.

#[global] Instance Async_ret : MRet Async := fun A a w => (Normal a, w).

#[global] Instance Async_bind : MBind Async := fun A B k m w =>
  match m w with
  | (Normal a, w') => k a w'
  | (Throw e, w') => (Throw e, w')
  end.

Definition throw {A} (e : JsThrown) : Async A := fun w => (Throw e, w).

Definition liftCompletion {A} (c : Completion A) : Async A := fun w => (c, w).

(** [try { body } catch (error) { handler }]. *)
Definition tryCatch {A} (body : Async A) (handler : JsThrown -> Async A)
    : Async A := fun w =>
  match body w with
  | (Normal a, w') => (Normal a, w')
  | (Throw e, w') => handler e w'
  end.

(** [try { body } finally { final }]: [final] runs on both completions of
    [body]; if it throws, its exception replaces the completion. *)
Definition tryFinally {A} (body : Async A) (final : Async unit)
    : Async A := fun w =>
  match body w with
  | (c, w') =>
      match final w' with
      | (Normal _, w'') => (c, w'')
      | (Throw e, w'') => (Throw e, w'')
      end
  end.

(** [p.catch(() => { })]. *)
Definition catchIgnore (p : Async unit) : Async unit := fun w =>
  match p w with
  | (_, w') => (Normal tt, w')
  end.

(** [Promise.all([p, q])]: both operations are started, in order; the
    result rejects with the first rejection. *)
Definition promiseAll (p q : Async unit) : Async unit := fun w =>
  match p w with
  | (c1, w1) =>
      match q w1 with
      | (c2, w2) =>
          match c1, c2 with
          | Throw e, _ => (Throw e, w2)
          | Normal _, Throw e => (Throw e, w2)
          | Normal _, Normal _ => (Normal tt, w2)
          end
      end
  end.

(** ** [fs.promises] *)

Definition enoent (syscall : string) (path : jsstring) : JsThrown :=
  ErrorInstance
    (js "ENOENT: no such file or directory, " ++ js syscall ++ js " '"
       ++ path ++ js "'").

(** [fs.writeFile(path, content, 'utf8')]. *)
Definition writeFile (h : Host) (path content : jsstring) : Async unit :=
  fun w =>
    let w1 := record (EvWriteFile path content) w in
    match writeFault h path (files w) with
    | Some failure =>
        (Throw (writeError failure),
         match writeLeft failure with
         | Some remains => setFiles (<[path := remains]> (files w)) w1
         | None => w1
         end)
    | None => (Normal tt, setFiles (<[path := encodeUtf8 h content]> (files w)) w1)
    end.

(** [fs.readFile(path)]. *)
Definition readFile (h : Host) (path : jsstring) : Async (list byte) :=
  fun w =>
    let w1 := record (EvReadFile path) w in
    match readFault h path (files w) with
    | Some e => (Throw e, w1)
    | None =>
        match files w !! path with
        | Some bytes => (Normal bytes, w1)
        | None => (Throw (enoent "open" path), w1)
        end
    end.

(** [fs.unlink(path)]. *)
Definition unlink (h : Host) (path : jsstring) : Async unit :=
  fun w =>
    let w1 := record (EvUnlink path) w in
    match unlinkFault h path (files w) with
    | Some e => (Throw e, w1)
    | None =>
        match files w !! path with
        | Some _ => (Normal tt, setFiles (delete path (files w)) w1)
        | None => (Throw (enoent "unlink" path), w1)
        end
    end.

(** [new Date().getTime()]. *)
Definition getTime : Async Z := fun w => (Normal (clock w), w).

(** Template-literal conversion of an integral number. *)
Definition numberToString (z : Z) : jsstring :=
  js (NilZero.string_of_int (Z.to_int z)).

(** ** [render] (lines 14-42) *)

(** The call of [run] at line 29, with the write slots as the engine finds
    them recorded in the trace. *)
Definition runEngine (h : Host) (inputPath outputPath : jsstring)
    (outputFormat : Format) : Async unit :=
  fun w =>
    let w1 :=
      record (EvRun inputPath outputPath outputFormat
                (stdoutWrite w) (stderrWrite w)) w in
    let out := run h inputPath outputPath outputFormat w in
    let w2 :=
      mkWorld (engineFiles out) (engineStdout out) (engineStderr out)
        (clock w1) (trace w1) in
    match engineThrown out with
    | Some e => (Throw e, w2)
    | None => (Normal tt, w2)
    end.

Definition readStdout : Async WriteFn := fun w => (Normal (stdoutWrite w), w).
Definition readStderr : Async WriteFn := fun w => (Normal (stderrWrite w), w).
Definition assignStdout (f : WriteFn) : Async unit :=
  fun w => (Normal tt, setStdout f w).
Definition assignStderr (f : WriteFn) : Async unit :=
  fun w => (Normal tt, setStderr f w).

Definition render (h : Host) (inputPath outputPath : jsstring)
    (outputFormat : Format) : Async unit :=
  originalStdout ← readStdout;
  originalStderr ← readStderr;
  tryFinally
    (assignStdout NoopWrite;;
     assignStderr NoopWrite;;
     runEngine h inputPath outputPath outputFormat)
    (assignStdout originalStdout;;
     assignStderr originalStderr).

(** ** [generateDiagram] (lines 44-75) *)

Definition inputPathOf (h : Host) (timestamp : Z) : jsstring :=
  join h (tmpdir h) (js "input-" ++ numberToString timestamp ++ js ".mmd").

Definition outputPathOf (h : Host) (timestamp : Z) (format : Format)
    : jsstring :=
  join h (tmpdir h) (js "output-" ++ numberToString timestamp)
    ++ js "." ++ formatName format.

Definition generateDiagram (h : Host) (diagram : jsstring) (format : Format)
    (isMarkdown : bool) (timestamp : Z) : Async (list byte) :=
  let inputPath := inputPathOf h timestamp in
  let outputPath := outputPathOf h timestamp format in
  content ← liftCompletion (stagedContent diagram isMarkdown);
  writeFile h inputPath content;;
  render h inputPath outputPath format;;
  output ← readFile h outputPath;
  promiseAll (catchIgnore (unlink h inputPath))
             (catchIgnore (unlink h outputPath));;
  mret output.

(** ** [JSON.stringify] on an object whose property values are strings *)

Definition hexDigit (n : N) : N :=
  if N.ltb n 10 then (48 + n)%N else (87 + n)%N.

(** [\uXXXX], four lower-case hexadecimal digits. *)
Definition unicodeEscape (c : N) : jsstring :=
  [92; 117; hexDigit (N.modulo (N.div c 4096) 16);
   hexDigit (N.modulo (N.div c 256) 16);
   hexDigit (N.modulo (N.div c 16) 16); hexDigit (N.modulo c 16)]%N.

Definition isLeadingSurrogate (c : N) : bool := N.leb 55296 c && N.leb c 56319.
Definition isTrailingSurrogate (c : N) : bool := N.leb 56320 c && N.leb c 57343.

(** One code unit that is not part of a surrogate pair. *)
Definition quoteUnit (c : N) : jsstring :=
  if N.eqb c 8 then js "\b"
  else if N.eqb c 9 then js "\t"
  else if N.eqb c 10 then js "\n"
  else if N.eqb c 12 then js "\f"
  else if N.eqb c 13 then js "\r"
  else if N.eqb c 34 then [92; 34]%N
  else if N.eqb c 92 then [92; 92]%N
  else if N.ltb c 32 || isLeadingSurrogate c || isTrailingSurrogate c
       then unicodeEscape c
  else [c].

Fixpoint quoteUnits (s : jsstring) : jsstring :=
  match s with
  | [] => []
  | c :: t =>
      match t with
      | d :: t' =>
          if isLeadingSurrogate c && isTrailingSurrogate d
          then c :: d :: quoteUnits t'
          else quoteUnit c ++ quoteUnits t
      | [] => quoteUnit c
      end
  end.

(** QuoteJSONString. *)
Definition quoteJSONString (s : jsstring) : jsstring :=
  [34%N] ++ quoteUnits s ++ [34%N].

Fixpoint stringifyMembers (members : list (jsstring * jsstring)) : jsstring :=
  match members with
  | [] => []
  | [(k, v)] => quoteJSONString k ++ [58%N] ++ quoteJSONString v
  | (k, v) :: rest =>
      quoteJSONString k ++ [58%N] ++ quoteJSONString v ++ [44%N]
        ++ stringifyMembers rest
  end.

Definition JSON_stringify (members : list (jsstring * jsstring)) : jsstring :=
  [123%N] ++ stringifyMembers members ++ [125%N].

(** ** The two tools (lines 78-160) *)

Record ToolArgs : Type := mkToolArgs {
  diagram : jsstring;
  format : Format;
  isMarkdown : bool
}.

Inductive ContentBlock : Type :=
| ImageBlock (mimeType data : jsstring)
| ResourceBlock (uri mimeType blob : jsstring)
| TextBlock (text : jsstring).

Record ToolResult : Type := mkToolResult { content : list ContentBlock }.

(** 不明なエラー *)
Definition unknownErrorText : jsstring :=
  [19981; 26126; 12394; 12456; 12521; 12540]%N.

(** 図の生成中にエラーが発生しました *)
Definition generationFailedText : jsstring :=
  [22259; 12398; 29983; 25104; 20013; 12395; 12456; 12521; 12540; 12364;
   30330; 29983; 12375; 12414; 12375; 12383]%N.

Definition render_mermaid (h : Host) (args : ToolArgs) : Async ToolResult :=
  tryCatch
    (timestamp ← getTime;
     output ← generateDiagram h (diagram args) (format args)
                (isMarkdown args) timestamp;
     if decide (format args = png) then
       mret (mkToolResult
               [ImageBlock (js "image/png") (bufferToString h Base64 output)])
     else if decide (format args = pdf) then
       mret (mkToolResult
               [ResourceBlock (numberToString timestamp ++ js ".pdf")
                  (js "application/pdf") (bufferToString h Base64 output)])
     else
       mret (mkToolResult [TextBlock (bufferToString h Utf8 output)]))
    (fun error =>
       let errorMessage :=
         match error with
         | ErrorInstance message => message
         | NonErrorValue _ => unknownErrorText
         end in
       throw (ErrorInstance (generationFailedText ++ js ": " ++ errorMessage))).

Definition dryrun_mermaid (h : Host) (args : ToolArgs) : Async ToolResult :=
  tryCatch
    (timestamp ← getTime;
     generateDiagram h (diagram args) (format args) (isMarkdown args)
       timestamp;;
     mret (mkToolResult
             [TextBlock (JSON_stringify [(js "status", js "ok")])]))
    (fun error =>
       let errorMessage :=
         match error with
         | ErrorInstance message => message
         | NonErrorValue _ => js "Occurred an error"
         end in
       mret (mkToolResult
               [TextBlock (JSON_stringify [(js "status", js "failed");
                                           (js "message", errorMessage)])])).

(** ** A concrete host, to run the adapter on examples *)

Module Demo.

(** [path.join] on two already normalised segments. *)
Definition join (a b : jsstring) : jsstring := a ++ js "/" ++ b.

Definition byteOf (n : N) : byte :=
  match Byte.of_N n with
  | Some b => b
  | None => x00
  end.

(** UTF-8 of a sequence of code units; an unpaired surrogate becomes
    U+FFFD, as in Node. *)
Fixpoint encodeUtf8 (s : jsstring) : list byte :=
  match s with
  | [] => []
  | c :: t =>
      if N.ltb c 128 then byteOf c :: encodeUtf8 t
      else if N.ltb c 2048 then
        byteOf (192 + N.div c 64) :: byteOf (128 + N.modulo c 64)
          :: encodeUtf8 t
      else
        let three (u : N) :=
          [byteOf (224 + N.div u 4096);
           byteOf (128 + N.modulo (N.div u 64) 64);
           byteOf (128 + N.modulo u 64)] in
        match t with
        | d :: t' =>
            if isLeadingSurrogate c && isTrailingSurrogate d then
              let u := (65536 + (c - 55296) * 1024 + (d - 56320))%N in
              [byteOf (240 + N.div u 262144);
               byteOf (128 + N.modulo (N.div u 4096) 64);
               byteOf (128 + N.modulo (N.div u 64) 64);
               byteOf (128 + N.modulo u 64)] ++ encodeUtf8 t'
            else if isLeadingSurrogate c || isTrailingSurrogate c
            then three 65533%N ++ encodeUtf8 t
            else three c ++ encodeUtf8 t
        | [] =>
            if isLeadingSurrogate c || isTrailingSurrogate c
            then three 65533%N
            else three c
        end
  end.

Definition base64Alphabet : jsstring :=
  js "ABCDEFGHIJKLMNOPQRSTUVWXYZabcdefghijklmnopqrstuvwxyz0123456789+/".

Definition sextet (n : N) : N := nth (N.to_nat n) base64Alphabet 0%N.

(** [buf.toString('base64')]. *)
Fixpoint base64 (bs : list byte) : jsstring :=
  match bs with
  | [] => []
  | [a] =>
      let n := (Byte.to_N a * 16)%N in
      [sextet (N.div n 64); sextet (N.modulo n 64); 61%N; 61%N]
  | [a; b] =>
      let n := ((Byte.to_N a * 256 + Byte.to_N b) * 4)%N in
      [sextet (N.div n 4096); sextet (N.modulo (N.div n 64) 64);
       sextet (N.modulo n 64); 61%N]
  | a :: b :: c :: t =>
      let n := (Byte.to_N a * 65536 + Byte.to_N b * 256 + Byte.to_N c)%N in
      [sextet (N.div n 262144); sextet (N.modulo (N.div n 4096) 64);
       sextet (N.modulo (N.div n 64) 64); sextet (N.modulo n 64)]
        ++ base64 t
  end.

(** [buf.toString('utf8')], exact on ASCII artifacts (all the demo engine
    produces); any other byte is shown as U+FFFD. *)
Definition decodeAscii (bs : list byte) : jsstring :=
  (fun b => if N.ltb (Byte.to_N b) 128 then Byte.to_N b else 65533%N) <$> bs.

Definition bufferToString (enc : Encoding) (bs : list byte) : jsstring :=
  match enc with
  | Base64 => base64 bs
  | Utf8 => decodeAscii bs
  end.

(** A stand-in for mermaid-cli: a definition that starts with [graph] is
    rendered to a fixed artifact at the output path, anything else is a
    parse error; a missing input file is an error of the engine. *)
Definition artifact (f : Format) : list byte :=
  match f with
  | svg => encodeUtf8 (js "<svg></svg>")
  | png => [x89; x50; x4e; x47]
  | pdf => encodeUtf8 (js "%PDF-1.4")
  end.

Definition run (inputPath outputPath : jsstring) (outputFormat : Format)
    (w : World) : EngineOutcome :=
  match files w !! inputPath with
  | Some bytes =>
      if startsWith (js "graph") (Byte.to_N <$> bytes)
      then mkEngineOutcome (<[outputPath := artifact outputFormat]> (files w))
             (stdoutWrite w) (stderrWrite w) None
      else mkEngineOutcome (files w) (stdoutWrite w) (stderrWrite w)
             (Some (ErrorInstance (js "Parse error on line 1")))
  | None =>
      mkEngineOutcome (files w) (stdoutWrite w) (stderrWrite w)
        (Some (enoent "open" inputPath))
  end.

Definition host : Host :=
  mkHost (js "/tmp") join encodeUtf8 bufferToString run
    (fun _ _ => None) (fun _ _ => None) (fun _ _ => None).

(** The same host with an engine that throws a value that is not an
    [Error]. *)
Definition hostThrowingNonError : Host :=
  mkHost (js "/tmp") join encodeUtf8 bufferToString
    (fun _ _ _ w =>
       mkEngineOutcome (files w) (stdoutWrite w) (stderrWrite w)
         (Some (NonErrorValue 0)))
    (fun _ _ => None) (fun _ _ => None) (fun _ _ => None).

(** A process with an empty temporary directory. *)
Definition world0 : World :=
  mkWorld ∅ (HostWrite 1) (HostWrite 2) 1700000000000%Z [].

End Demo.

(** ** Vocabulary of the specification *)

(** [sep] occurs in [s] at offset [i]. *)
Definition occursAt (sep s : jsstring) (i : nat) : Prop :=
  ∃ pre post, s = pre ++ sep ++ post ∧ length pre = i.

(** [sep] is not a substring of [s]. *)
Definition absent (sep s : jsstring) : Prop := ∀ i, ¬ occursAt sep s i.

(** [s] is [pre], then its leftmost occurrence of [sep], then [post]. *)
Definition firstOccurrence (sep s pre post : jsstring) : Prop :=
  s = pre ++ sep ++ post ∧ ∀ j, occursAt sep s j → length pre ≤ j.

(** [s] is [pre], its first opening marker, [body], the next closing
    fence after that marker, and [post]: [body] is what stands strictly
    between the two. *)
Definition fencedBody (s pre body post : jsstring) : Prop :=
  firstOccurrence mermaidFence s pre (body ++ closingFence ++ post)
  ∧ firstOccurrence closingFence (body ++ closingFence ++ post) body post.

(** The closing fence that ends [body] shares backticks with a later
    opening marker: the text after the first marker reads [body], then
    four or five backticks, then [mermaid]. *)
Definition fenceOverlapsMarker (body post : jsstring) : Prop :=
  occursAt mermaidFence (body ++ closingFence ++ post) (length body + 1)
  ∨ occursAt mermaidFence (body ++ closingFence ++ post) (length body + 2).

(** The part of [s] before the leftmost [sep], all of [s] without one:
    element 0 of [s.split(sep)]. *)
Definition cutAt (sep s : jsstring) : jsstring :=
  match indexOf sep s with
  | Some i => take i s
  | None => s
  end.

(** No backtick (code unit 96) in [body]. *)
Definition backtickFree (body : jsstring) : Prop :=
  Forall (fun c => c ≠ 96%N) body.

Definition doubleQuote : jsstring := [34%N].

(** The text [{"status":"ok"}]. *)
Definition statusOkText : jsstring :=
  js "{" ++ doubleQuote ++ js "status" ++ doubleQuote ++ js ":"
    ++ doubleQuote ++ js "ok" ++ doubleQuote ++ js "}".

(** The text [{"status":"failed","message":<message as a JSON string>}]. *)
Definition statusFailedText (message : jsstring) : jsstring :=
  js "{" ++ doubleQuote ++ js "status" ++ doubleQuote ++ js ":"
    ++ doubleQuote ++ js "failed" ++ doubleQuote ++ js ","
    ++ doubleQuote ++ js "message" ++ doubleQuote ++ js ":"
    ++ quoteJSONString message ++ js "}".

(** An event is a deletion attempt on [path]. *)
Definition unlinkAttempts (path : jsstring) (tr : list Event) : nat :=
  length (filter (fun ev => ev = EvUnlink path) tr).

(** [t] is a contiguous part of [s]. *)
Definition partOf (t s : jsstring) : Prop := ∃ pre post, s = pre ++ t ++ post.

(** [parts.join(sep)]. *)
Fixpoint joinWith (sep : jsstring) (parts : list jsstring) : jsstring :=
  match parts with
  | [] => []
  | p :: rest =>
      match rest with
      | [] => p
      | _ :: _ => p ++ sep ++ joinWith sep rest
      end
  end.

(** The process as [run] finds it at line 29 when the write of line 61
    went through: [content] is in the input file, the write is in the
    trace, both write slots are silenced. *)
Definition stagedWorld (h : Host) (inputPath content : jsstring) (w : World)
    : World :=
  setStderr NoopWrite
    (setStdout NoopWrite
       (setFiles (<[inputPath := encodeUtf8 h content]> (files w))
          (record (EvWriteFile inputPath content) w))).

(** Variations of the demo host, one failure each. *)
Module Faulty.

(** The temporary directory cannot be written: the open fails. *)
Definition readOnlyHost : Host :=
  mkHost (js "/tmp") Demo.join Demo.encodeUtf8 Demo.bufferToString Demo.run
    (fun _ _ =>
       Some (mkWriteFailure (ErrorInstance (js "EACCES: permission denied"))
               None))
    (fun _ _ => None) (fun _ _ => None).

(** The disk is full: the file is created, and the write fails. *)
Definition diskFullHost : Host :=
  mkHost (js "/tmp") Demo.join Demo.encodeUtf8 Demo.bufferToString Demo.run
    (fun _ _ =>
       Some (mkWriteFailure
               (ErrorInstance (js "ENOSPC: no space left on device, write"))
               (Some [])))
    (fun _ _ => None) (fun _ _ => None).

(** Files cannot be deleted. *)
Definition undeletableHost : Host :=
  mkHost (js "/tmp") Demo.join Demo.encodeUtf8 Demo.bufferToString Demo.run
    (fun _ _ => None) (fun _ _ => None)
    (fun _ _ => Some (ErrorInstance (js "EPERM: operation not permitted"))).

(** The engine returns without an error and without an artifact. *)
Definition silentHost : Host :=
  mkHost (js "/tmp") Demo.join Demo.encodeUtf8 Demo.bufferToString
    (fun _ _ _ w =>
       mkEngineOutcome (files w) (stdoutWrite w) (stderrWrite w) None)
    (fun _ _ => None) (fun _ _ => None) (fun _ _ => None).

End Faulty.

(** * Theorems *)

(** ** Substring search *)

Section StringSearch.

Implicit Types sep s pre post : jsstring.

Lemma startsWith_true p s : startsWith p s = true ↔ ∃ t, s = p ++ t.
Proof.
  revert s; induction p as [|a p IH]; intros s; simpl.
  - split; eauto.
  - destruct s as [|b s]; simpl.
    + split; [done | intros [t Ht]; done].
    + rewrite andb_true_iff, N.eqb_eq, IH. split.
      * intros [-> [t ->]]. eauto.
      * intros [t Ht]. injection Ht as -> ->. eauto.
Qed.

Lemma indexOf_eq sep s :
  indexOf sep s =
    if startsWith sep s then Some 0
    else match s with
         | [] => None
         | _ :: t => S <$> indexOf sep t
         end.
Proof. destruct s; reflexivity. Qed.

Lemma occursAt_0 sep s : occursAt sep s 0 ↔ startsWith sep s = true.
Proof.
  rewrite startsWith_true. split.
  - intros (pre & post & -> & Hlen). destruct pre; [eauto | done].
  - intros [t ->]. exists [], t. done.
Qed.

Lemma occursAt_S sep c s i : occursAt sep (c :: s) (S i) ↔ occursAt sep s i.
Proof.
  split.
  - intros (pre & post & Heq & Hlen). destruct pre as [|c' pre]; [done |].
    simpl in *. injection Heq as -> ->. exists pre, post. split; [done | lia].
  - intros (pre & post & -> & Hlen). exists (c :: pre), post.
    split; [done | simpl; lia].
Qed.

Lemma occursAt_nil sep i : occursAt sep [] i → i = 0.
Proof.
  intros (pre & post & Heq & Hlen). destruct pre; [done | done].
Qed.

Lemma occursAt_bound sep s i : occursAt sep s i → i + length sep ≤ length s.
Proof.
  intros (pre & post & -> & <-). rewrite !length_app. lia.
Qed.

Lemma occursAt_split sep s i :
  occursAt sep s i → s = take i s ++ sep ++ drop (i + length sep) s.
Proof.
  intros (pre & post & -> & <-).
  rewrite take_app_length. f_equal.
  rewrite drop_app_add'; [| done].
  by rewrite drop_app_length.
Qed.

(** [indexOf] returns the leftmost occurrence. *)
Lemma indexOf_Some sep s i :
  indexOf sep s = Some i ↔ occursAt sep s i ∧ ∀ j, occursAt sep s j → i ≤ j.
Proof.
  revert i; induction s as [|c s IH]; intros i; rewrite indexOf_eq.
  - destruct (startsWith sep []) eqn:Hp.
    + split.
      * intros [= <-]. split; [by apply occursAt_0 | lia].
      * intros [Hi _]. by rewrite (occursAt_nil _ _ Hi).
    + split; [done |]. intros [Hi _].
      pose proof (occursAt_nil _ _ Hi) as ->.
      apply occursAt_0 in Hi. congruence.
  - destruct (startsWith sep (c :: s)) eqn:Hp.
    + split.
      * intros [= <-]. split; [by apply occursAt_0 | lia].
      * intros [_ Hmin]. apply occursAt_0 in Hp. apply Hmin in Hp.
        f_equal; lia.
    + destruct i as [|i].
      * split.
        -- destruct (indexOf sep s); done.
        -- intros [Hi _]. apply occursAt_0 in Hi. congruence.
      * transitivity (indexOf sep s = Some i).
        { destruct (indexOf sep s); simpl; split; congruence. }
        rewrite IH, occursAt_S. split; intros [Hi Hmin]; (split; [done |]).
        -- intros [|j] Hj.
           ++ apply occursAt_0 in Hj. congruence.
           ++ apply occursAt_S, Hmin in Hj. lia.
        -- intros j Hj. apply (occursAt_S _ c) , Hmin in Hj. lia.
Qed.

Lemma indexOf_None sep s : indexOf sep s = None ↔ absent sep s.
Proof.
  induction s as [|c s IH]; rewrite indexOf_eq.
  - destruct (startsWith sep []) eqn:Hp.
    + split; [done |]. intros Habs. apply occursAt_0 in Hp. by apply Habs in Hp.
    + split; [| done]. intros _ i Hi.
      pose proof (occursAt_nil _ _ Hi) as ->.
      apply occursAt_0 in Hi. congruence.
  - destruct (startsWith sep (c :: s)) eqn:Hp.
    + split; [done |]. intros Habs. apply occursAt_0 in Hp. by apply Habs in Hp.
    + transitivity (indexOf sep s = None).
      { destruct (indexOf sep s); simpl; split; congruence. }
      rewrite IH. split; intros Habs.
      * intros [|i] Hi.
        -- apply occursAt_0 in Hi. congruence.
        -- apply occursAt_S in Hi. by apply Habs in Hi.
      * intros i Hi. apply (occursAt_S _ c) in Hi. by apply Habs in Hi.
Qed.

Lemma includes_false sep s : includes sep s = false ↔ absent sep s.
Proof.
  rewrite <- indexOf_None. unfold includes.
  destruct (indexOf sep s); split; congruence.
Qed.

Lemma firstOccurrence_indexOf sep s pre post :
  firstOccurrence sep s pre post → indexOf sep s = Some (length pre).
Proof.
  intros [-> Hmin]. apply indexOf_Some. split; [| done].
  by exists pre, post.
Qed.

End StringSearch.

(** ** [split] *)

Section Split.

Variable sep : jsstring.
Hypothesis sep_nonempty : sep ≠ [].

Lemma indexOf_nil : indexOf sep [] = None.
Proof. destruct sep; [done | reflexivity]. Qed.

(** Rounds beyond the length of the string change nothing. *)
Lemma split_rounds_enough n m s :
  length s ≤ n → length s ≤ m → split_rounds n sep s = split_rounds m sep s.
Proof using sep_nonempty.
  revert m s; induction n as [|n IH]; intros m s Hn Hm.
  - destruct s; [| simpl in Hn; lia].
    destruct m; [done |]. cbn [split_rounds]. by rewrite indexOf_nil.
  - destruct m as [|m].
    + destruct s; [| simpl in Hm; lia]. cbn [split_rounds].
      by rewrite indexOf_nil.
    + cbn [split_rounds]. destruct (indexOf sep s) as [i|] eqn:Hi; [| done].
      f_equal. assert (0 < length sep) by (destruct sep; [done | simpl; lia]).
      apply IH; rewrite length_drop; lia.
Qed.

Lemma split_rounds_length s : split sep s = split_rounds (length s) sep s.
Proof using sep_nonempty. unfold split. by destruct sep. Qed.

(** The loop of [String.prototype.split]. *)
Lemma split_unfold s :
  split sep s =
    match indexOf sep s with
    | None => [s]
    | Some i => take i s :: split sep (drop (i + length sep) s)
    end.
Proof using sep_nonempty.
  rewrite split_rounds_length. destruct s as [|d s].
  - by rewrite indexOf_nil.
  - cbn [length split_rounds]. destruct (indexOf sep (d :: s)) as [i|]; [| done].
    f_equal. rewrite split_rounds_length.
    assert (0 < length sep) by (destruct sep; [done | simpl; lia]).
    apply split_rounds_enough; [| done].
    rewrite length_drop. simpl. lia.
Qed.

Lemma split_first s : split sep s !! 0 = Some (cutAt sep s).
Proof using sep_nonempty.
  rewrite split_unfold. unfold cutAt. by destruct (indexOf sep s).
Qed.

Lemma split_second s pre post :
  firstOccurrence sep s pre post → split sep s !! 1 = Some (cutAt sep post).
Proof using sep_nonempty.
  intros Hfirst. rewrite split_unfold.
  rewrite (firstOccurrence_indexOf _ _ _ _ Hfirst).
  destruct Hfirst as [-> _]. simpl.
  rewrite drop_app_add'; [| done]. rewrite drop_app_length.
  apply split_first.
Qed.

End Split.

(** ** The staged content *)

Section Extraction.

Implicit Types s pre post body rest : jsstring.

Lemma mermaidFence_nonempty : mermaidFence ≠ [].
Proof. done. Qed.

Lemma closingFence_nonempty : closingFence ≠ [].
Proof. done. Qed.

(** An opening marker starts with a closing fence. *)
Lemma mermaidFence_closingFence s i :
  occursAt mermaidFence s i → occursAt closingFence s i.
Proof.
  intros (pre & post & -> & Hlen).
  exists pre, (js "mermaid" ++ post). split; [| done].
  by rewrite (app_assoc closingFence).
Qed.

Lemma occursAt_take sep s n i : occursAt sep (take n s) i → occursAt sep s i.
Proof.
  intros (pre & post & Heq & Hlen).
  exists pre, (post ++ drop n s). split; [| done].
  rewrite <- (take_drop n s) at 1. rewrite Heq.
  by rewrite <- !app_assoc.
Qed.

Lemma stagedContent_raw s : stagedContent s false = Normal s.
Proof. reflexivity. Qed.

Lemma stagedContent_no_marker s :
  absent mermaidFence s → stagedContent s true = Normal s.
Proof.
  intros Habs. unfold stagedContent.
  by rewrite (proj2 (includes_false _ _) Habs).
Qed.

(** With a marker: cut after the first marker, at the next marker, then at
    the first fence of what is left. *)
Lemma stagedContent_marker s pre rest :
  firstOccurrence mermaidFence s pre rest →
  stagedContent s true
  = Normal (trim (cutAt closingFence (cutAt mermaidFence rest))).
Proof.
  intros Hfirst. unfold stagedContent, includes, elementThen.
  rewrite (firstOccurrence_indexOf _ _ _ _ Hfirst).
  rewrite (split_second _ mermaidFence_nonempty _ _ _ Hfirst).
  by rewrite (split_first _ closingFence_nonempty).
Qed.

(** The extraction never throws: the index [1] is only read when the
    marker is there. *)
Lemma stagedContent_total s md : ∃ c, stagedContent s md = Normal c.
Proof.
  destruct md; [| by eexists].
  destruct (indexOf mermaidFence s) as [i|] eqn:Hi.
  - apply indexOf_Some in Hi as [Hocc Hmin].
    pose proof (occursAt_split _ _ _ Hocc) as Heq.
    eexists. apply (stagedContent_marker s (take i s)).
    split; [exact Heq |]. intros j Hj. apply Hmin in Hj.
    rewrite length_take. lia.
  - exists s. by apply stagedContent_no_marker, indexOf_None.
Qed.

End Extraction.

(** ** Checking occurrences on concrete texts *)

Section Checks.

Implicit Types sep s pre post : jsstring.

Lemma occursAt_startsWith sep s i :
  occursAt sep s i ↔ i ≤ length s ∧ startsWith sep (drop i s) = true.
Proof.
  rewrite startsWith_true. split.
  - intros (pre & post & -> & <-). split.
    + rewrite length_app. lia.
    + exists post. by rewrite drop_app_length.
  - intros [Hle [t Ht]]. exists (take i s), t. split.
    + by rewrite <- Ht, take_drop.
    + rewrite length_take. lia.
Qed.

Lemma firstOccurrence_check sep s pre post :
  s = pre ++ sep ++ post → indexOf sep s = Some (length pre) →
  firstOccurrence sep s pre post.
Proof.
  intros Heq Hidx. split; [done |]. by apply indexOf_Some in Hidx as [_ Hmin].
Qed.

Lemma absent_check sep s : indexOf sep s = None → absent sep s.
Proof. apply indexOf_None. Qed.

End Checks.

(** ** Properties of the extraction *)

(** C6, as the specification states it, fails on a text whose first
    closing fence runs into a second opening marker: after the marker of
    [```mermaid````mermaid] the next closing fence follows at once, so the
    content between the two is empty, but the adapter stages one
    backtick. *)
Lemma fenced_body_overlap_counterexample :
  fencedBody (js "```mermaid````mermaid") [] [] (js "`mermaid")
  ∧ stagedContent (js "```mermaid````mermaid") true = Normal (js "`")
  ∧ stagedContent (js "```mermaid````mermaid") true ≠ Normal (trim []).
Proof.
  split; [| split].
  - split; apply firstOccurrence_check; reflexivity.
  - reflexivity.
  - vm_compute. discriminate.
Qed.

(** C6 (amended): for a markdown-flagged text with an opening marker and a
    closing fence after it, the staged content is exactly the trimmed text
    strictly between the first opening marker and the next closing fence,
    both excluded, provided that closing fence does not share backticks
    with a later opening marker. *)
Theorem fenced_body_extracted (s pre body post : jsstring) :
  fencedBody s pre body post →
  ¬ fenceOverlapsMarker body post →
  stagedContent s true = Normal (trim body).
Proof.
  intros [Hopen Hclose] Hover.
  rewrite (stagedContent_marker _ _ _ Hopen). do 2 f_equal.
  set (rest := body ++ closingFence ++ post) in *.
  assert (Hbody : take (length body) rest = body)
    by (unfold rest; apply take_app_length).
  pose proof (firstOccurrence_indexOf _ _ _ _ Hclose) as Hidx.
  destruct Hclose as [_ Hmin].
  unfold cutAt at 2. destruct (indexOf mermaidFence rest) as [q|] eqn:Hq.
  - apply indexOf_Some in Hq as [Hocc _].
    pose proof (Hmin _ (mermaidFence_closingFence _ _ Hocc)) as Hle.
    assert (q = length body ∨ length body + 3 ≤ q) as [-> | Hfar].
    { destruct (decide (q = length body + 1)) as [-> | ?];
        [destruct Hover; by left |].
      destruct (decide (q = length body + 2)) as [-> | ?];
        [destruct Hover; by right |].
      lia. }
    + rewrite Hbody. unfold cutAt.
      destruct (indexOf closingFence body) as [j|] eqn:Hj; [| done].
      apply indexOf_Some in Hj as [Hj _].
      pose proof (occursAt_bound _ _ _ Hj) as Hb.
      rewrite <- Hbody in Hj. apply occursAt_take, Hmin in Hj.
      simpl in Hb. lia.
    + assert (Hinner : take q rest
                       = body ++ closingFence
                           ++ take (q - length body - 3) post).
      { unfold rest. rewrite take_app_ge by lia. f_equal.
        rewrite take_app_ge by (simpl; lia). done. }
      unfold cutAt.
      assert (indexOf closingFence (take q rest) = Some (length body)) as ->.
      { apply indexOf_Some. split.
        - rewrite Hinner. by eexists _, _.
        - intros j Hj. by apply occursAt_take, Hmin in Hj. }
      rewrite Hinner. apply take_app_length.
  - unfold cutAt. by rewrite Hidx.
Qed.

(** A document with one diagram block. *)
Lemma fenced_body_extracted_witness :
  let pre := js "# Flow" ++ [10%N] in
  let body := [10%N] ++ js "graph TD; A-->B;" ++ [10%N] in
  let post := [10%N] ++ js "Bye" in
  let s := pre ++ mermaidFence ++ body ++ closingFence ++ post in
  fencedBody s pre body post
  ∧ ¬ fenceOverlapsMarker body post
  ∧ stagedContent s true = Normal (js "graph TD; A-->B;").
Proof.
  intros pre body post s.
  assert (Hf : fencedBody s pre body post)
    by (split; apply firstOccurrence_check; reflexivity).
  assert (Ho : ¬ fenceOverlapsMarker body post).
  { intros [H | H]; apply occursAt_startsWith in H as [_ H];
      vm_compute in H; discriminate. }
  split; [exact Hf | split; [exact Ho |]].
  exact (fenced_body_extracted s pre body post Hf Ho).
Defined.

(** C7: a markdown-flagged text without the opening marker is staged
    unchanged, and the extraction completes normally (nothing is thrown
    for the missing fence). *)
Theorem no_marker_fallback (s : jsstring) :
  absent mermaidFence s → stagedContent s true = Normal s.
Proof. apply stagedContent_no_marker. Qed.

Lemma no_marker_fallback_witness :
  absent mermaidFence (js "graph TD; A-->B;")
  ∧ stagedContent (js "graph TD; A-->B;") true = Normal (js "graph TD; A-->B;").
Proof.
  assert (H : absent mermaidFence (js "graph TD; A-->B;"))
    by (apply absent_check; reflexivity).
  split; [exact H |]. exact (no_marker_fallback _ H).
Defined.

Section Variants.

Implicit Types s body t : jsstring.

(** A text that does not begin with a backtick does not begin with the
    marker. *)
Lemma startsWith_marker_backtick c t :
  c ≠ 96%N → startsWith mermaidFence (c :: t) = false.
Proof.
  intros Hc. change mermaidFence with (96%N :: js "``mermaid").
  cbn [startsWith]. destruct (N.eqb_spec 96 c); [congruence | done].
Qed.

Lemma indexOf_skip sep c t :
  startsWith sep (c :: t) = false → indexOf sep (c :: t) = S <$> indexOf sep t.
Proof. intros H. rewrite indexOf_eq. by rewrite H. Qed.

(** Backtick-free text followed by a bare closing fence holds no marker. *)
Lemma indexOf_marker_backtickFree body :
  backtickFree body → indexOf mermaidFence (body ++ closingFence) = None.
Proof.
  induction 1 as [|c body Hc _ IH]; [reflexivity |].
  rewrite <- app_comm_cons, indexOf_skip
    by (by apply startsWith_marker_backtick).
  by rewrite IH.
Qed.

End Variants.

(** C9: the opening marker is recognised only as the exact substring
    [```mermaid]: whenever the staged content of a markdown-flagged text
    differs from the text, that substring occurs in it; a block opened
    with a space before the label, or with a capitalised label, is not
    recognised and the text is staged unchanged. *)
Theorem marker_exact_spelling :
  (∀ s : jsstring,
     stagedContent s true ≠ Normal s → ∃ i, occursAt mermaidFence s i)
  ∧ (∀ body : jsstring, backtickFree body →
       stagedContent (js "``` mermaid" ++ body ++ closingFence) true
       = Normal (js "``` mermaid" ++ body ++ closingFence))
  ∧ (∀ body : jsstring, backtickFree body →
       stagedContent (js "```Mermaid" ++ body ++ closingFence) true
       = Normal (js "```Mermaid" ++ body ++ closingFence)).
Proof.
  split; [| split].
  - intros s Hne. destruct (indexOf mermaidFence s) as [i|] eqn:Hi.
    + exists i. by apply indexOf_Some in Hi as [Hi _].
    + destruct Hne. by apply stagedContent_no_marker, indexOf_None.
  - intros body Hbody. apply stagedContent_no_marker, indexOf_None.
    cbn [js app].
    repeat (rewrite indexOf_skip by (vm_compute; reflexivity)).
    by rewrite indexOf_marker_backtickFree.
  - intros body Hbody. apply stagedContent_no_marker, indexOf_None.
    cbn [js app].
    repeat (rewrite indexOf_skip by (vm_compute; reflexivity)).
    by rewrite indexOf_marker_backtickFree.
Qed.

Lemma marker_exact_spelling_witness :
  (stagedContent (mermaidFence ++ js " A-->B " ++ closingFence) true
     ≠ Normal (mermaidFence ++ js " A-->B " ++ closingFence)
   ∧ ∃ i, occursAt mermaidFence (mermaidFence ++ js " A-->B " ++ closingFence) i)
  ∧ (backtickFree (js " A-->B ")
     ∧ stagedContent (js "``` mermaid" ++ js " A-->B " ++ closingFence) true
       = Normal (js "``` mermaid" ++ js " A-->B " ++ closingFence))
  ∧ (backtickFree (js " A-->B ")
     ∧ stagedContent (js "```Mermaid" ++ js " A-->B " ++ closingFence) true
       = Normal (js "```Mermaid" ++ js " A-->B " ++ closingFence)).
Proof.
  assert (Hne : stagedContent (mermaidFence ++ js " A-->B " ++ closingFence) true
                ≠ Normal (mermaidFence ++ js " A-->B " ++ closingFence))
    by (vm_compute; discriminate).
  assert (Hfree : backtickFree (js " A-->B "))
    by (unfold backtickFree; repeat constructor; discriminate).
  destruct marker_exact_spelling as (Honly & Hspace & Hcase).
  split; [| split].
  - split; [exact Hne | exact (Honly _ Hne)].
  - split; [exact Hfree | exact (Hspace _ Hfree)].
  - split; [exact Hfree | exact (Hcase _ Hfree)].
Defined.

Lemma length_trimStart (s : jsstring) : length (trimStart s) ≤ length s.
Proof.
  induction s as [|c s IH]; simpl; [done |].
  destruct (isWhiteSpace c); simpl; lia.
Qed.

Lemma length_trim (s : jsstring) : length (trim s) ≤ length s.
Proof.
  unfold trim, trimEnd. rewrite length_rev.
  etransitivity; [apply length_trimStart |].
  rewrite length_rev. apply length_trimStart.
Qed.

(** C10: when the opening marker occurs but no closing fence follows the
    first one, the staged content is the trimmed remainder of the text
    after that first marker, and not the text itself. *)
Theorem unclosed_marker_remainder (s pre rest : jsstring) :
  firstOccurrence mermaidFence s pre rest →
  absent closingFence rest →
  stagedContent s true = Normal (trim rest)
  ∧ stagedContent s true ≠ Normal s.
Proof.
  intros Hopen Hnone.
  assert (Heq : stagedContent s true = Normal (trim rest)).
  { rewrite (stagedContent_marker _ _ _ Hopen). do 2 f_equal.
    assert (indexOf mermaidFence rest = None) as Hm.
    { apply indexOf_None. intros i Hi.
      by apply mermaidFence_closingFence, Hnone in Hi. }
    unfold cutAt at 2. rewrite Hm. unfold cutAt.
    by rewrite (proj2 (indexOf_None _ _) Hnone). }
  split; [done |]. rewrite Heq. intros [= Htrim].
  pose proof (length_trim rest) as Hlen. destruct Hopen as [Hs _].
  rewrite Htrim, Hs, !length_app in Hlen. simpl in Hlen. lia.
Qed.

Lemma unclosed_marker_remainder_witness :
  let s := js "See: ```mermaid  graph TD; A-->B;  " in
  firstOccurrence mermaidFence s (js "See: ") (js "  graph TD; A-->B;  ")
  ∧ absent closingFence (js "  graph TD; A-->B;  ")
  ∧ stagedContent s true = Normal (js "graph TD; A-->B;")
  ∧ stagedContent s true ≠ Normal s.
Proof.
  intros s.
  assert (Ho : firstOccurrence mermaidFence s (js "See: ")
                 (js "  graph TD; A-->B;  "))
    by (apply firstOccurrence_check; reflexivity).
  assert (Hn : absent closingFence (js "  graph TD; A-->B;  "))
    by (apply absent_check; reflexivity).
  split; [exact Ho | split; [exact Hn |]].
  exact (unclosed_marker_remainder s _ _ Ho Hn).
Defined.

(** ** The pipeline *)

Ltac unfold_async :=
  unfold render, runEngine, writeFile, readFile, unlink, getTime,
    promiseAll, catchIgnore, tryFinally, tryCatch, throw, liftCompletion,
    readStdout, readStderr, assignStdout, assignStderr,
    mbind, mret, Async_bind, Async_ret in *;
  cbn [fst snd files stdoutWrite stderrWrite clock trace
       setFiles setStdout setStderr record] in *.

Section Pipeline.

Variable h : Host.

(** What [render] does, in one equation: the engine is entered with both
    slots silenced, and whatever it leaves in the slots is overwritten
    with the values read at entry. *)
Lemma render_eq (i o : jsstring) (f : Format) (w : World) :
  render h i o f w =
    let out := run h i o f (setStderr NoopWrite (setStdout NoopWrite w)) in
    (match engineThrown out with
     | Some e => Throw e
     | None => Normal tt
     end,
     mkWorld (engineFiles out) (stdoutWrite w) (stderrWrite w) (clock w)
       (trace w ++ [EvRun i o f NoopWrite NoopWrite])).
Proof.
  unfold_async.
  destruct (engineThrown (run h i o f _)); reflexivity.
Qed.

(** C3: on both exits of [render], normal and exceptional, the two write
    slots hold exactly the values they held on entry, whatever happened
    to them during the call; the engine is entered once, with both slots
    holding the no-op. *)
Theorem render_restores_write_functions
    (i o : jsstring) (f : Format) (w : World) :
  let r := render h i o f w in
  stdoutWrite r.2 = stdoutWrite w
  ∧ stderrWrite r.2 = stderrWrite w
  ∧ trace r.2 = trace w ++ [EvRun i o f NoopWrite NoopWrite]
  ∧ r.1 = match engineThrown
                  (run h i o f (setStderr NoopWrite (setStdout NoopWrite w)))
          with
          | Some e => Throw e
          | None => Normal tt
          end.
Proof.
  cbv zeta. rewrite render_eq. cbn. done.
Qed.

(** The events of one call of [generateDiagram], by outcome. *)
Lemma generateDiagram_trace (d : jsstring) (f : Format) (md : bool)
    (ts : Z) (w : World) :
  let i := inputPathOf h ts in
  let o := outputPathOf h ts f in
  let run_ev := EvRun i o f NoopWrite NoopWrite in
  let r := generateDiagram h d f md ts w in
  ∃ c, stagedContent d md = Normal c ∧
    match r.1 with
    | Normal _ =>
        trace r.2
        = trace w ++ [EvWriteFile i c; run_ev; EvReadFile o;
                      EvUnlink i; EvUnlink o]
    | Throw _ =>
        trace r.2 = trace w ++ [EvWriteFile i c]
        ∨ trace r.2 = trace w ++ [EvWriteFile i c; run_ev]
        ∨ trace r.2 = trace w ++ [EvWriteFile i c; run_ev; EvReadFile o]
    end.
Proof.
  intros i o run_ev r.
  destruct (stagedContent_total d md) as [c Hc]. exists c. split; [done |].
  assert (Hr : generateDiagram h d f md ts w = r) by done. clearbody r.
  unfold generateDiagram in Hr. fold i o in Hr. rewrite Hc in Hr.
  unfold mbind, Async_bind, liftCompletion, writeFile in Hr.
  destruct (writeFault h i (files w)) as [[e [remains|]]|];
    [subst r; cbn; by left | subst r; cbn; by left |].
  rewrite render_eq in Hr. cbv zeta beta iota in Hr.
  destruct (engineThrown _);
    [subst r; cbn; right; left; by rewrite <- app_assoc |].
  unfold_async.
  repeat case_match; simplify_eq/=;
    rewrite <- ?app_assoc; simpl; auto.
Qed.

(** C5: with the markdown flag off, extraction is the identity, and the
    text itself is what [generateDiagram] hands to [fs.writeFile] for the
    input path. *)
Theorem raw_text_staged_unchanged (text : jsstring) :
  stagedContent text false = Normal text
  ∧ ∀ (f : Format) (ts : Z) (w : World), ∃ later,
      trace (generateDiagram h text f false ts w).2
      = trace w ++ EvWriteFile (inputPathOf h ts) text :: later.
Proof.
  split; [apply stagedContent_raw |]. intros f ts w.
  destruct (generateDiagram_trace text f false ts w) as (c & [= <-] & Htr).
  destruct (generateDiagram h text f false ts w).1;
    [| destruct Htr as [Htr | [Htr | Htr]]]; rewrite Htr; by eexists.
Qed.

(** X1: a failed call of [generateDiagram] has attempted no deletion. *)
Lemma failed_call_attempts_no_cleanup (d : jsstring) (f : Format)
    (md : bool) (ts : Z) (w : World) (e : JsThrown) (path : jsstring) :
  (generateDiagram h d f md ts w).1 = Throw e →
  unlinkAttempts path (trace (generateDiagram h d f md ts w).2)
  = unlinkAttempts path (trace w).
Proof.
  intros He. destruct (generateDiagram_trace d f md ts w) as (c & _ & Htr).
  rewrite He in Htr. unfold unlinkAttempts.
  destruct Htr as [Htr | [Htr | Htr]]; rewrite Htr, filter_app, length_app;
    cbn; repeat case_decide; done.
Qed.

(** C2: [dryrun_mermaid] always completes normally, with one text block:
    [{"status":"ok"}] when the pipeline completed, and
    [{"status":"failed","message":...}] carrying the message of the error
    (the fixed text when what was thrown is not an [Error]) when any step
    of it threw. *)
Theorem dryrun_never_throws (args : ToolArgs) (w : World) :
  let g := generateDiagram h (diagram args) (format args) (isMarkdown args)
             (clock w) w in
  dryrun_mermaid h args w =
    (Normal
       (mkToolResult
          [TextBlock
             match g.1 with
             | Normal _ => statusOkText
             | Throw (ErrorInstance message) => statusFailedText message
             | Throw (NonErrorValue _) =>
                 statusFailedText (js "Occurred an error")
             end]),
     g.2).
Proof.
  cbv zeta. unfold dryrun_mermaid. unfold_async.
  destruct (generateDiagram _ _ _ _ _ w) as [[bytes | [m | t]] w'];
    reflexivity.
Qed.


(** A call of [render_mermaid] throws only when the pipeline threw. *)
Lemma render_mermaid_throws_with_pipeline (args : ToolArgs) (w w' : World)
    (thrown : JsThrown) :
  render_mermaid h args w = (Throw thrown, w') →
  ∃ cause,
    generateDiagram h (diagram args) (format args) (isMarkdown args)
      (clock w) w = (Throw cause, w').
Proof.
  unfold render_mermaid. unfold_async.
  destruct (generateDiagram _ _ _ _ _ w) as [[bytes | e] w1].
  - repeat case_decide; done.
  - intros [= _ <-]. by exists e.
Qed.

(** C8: whenever the pipeline throws, [render_mermaid] fails, and it
    throws an [Error] whose message is the Japanese prefix, a colon and a
    space, and the message of the error thrown inside the pipeline; the
    fixed placeholder stands in its place exactly when what was thrown is
    not an [Error] and so carries no message. *)
Theorem render_mermaid_failure_message (args : ToolArgs) (w w' : World)
    (cause : JsThrown) :
  generateDiagram h (diagram args) (format args) (isMarkdown args)
    (clock w) w = (Throw cause, w') →
  render_mermaid h args w
  = (Throw
       (ErrorInstance
          (generationFailedText ++ js ": "
             ++ match cause with
                | ErrorInstance message => message
                | NonErrorValue _ => unknownErrorText
                end)),
     w').
Proof.
  intros Hg. unfold render_mermaid. unfold_async. by rewrite Hg.
Qed.

End Pipeline.

(** ** The adapter on the demo host *)


(** The first scenario of the specification: a raster reply. *)
Example render_png_scenario :
  (render_mermaid Demo.host (mkToolArgs (js "graph TD; A-->B;") png false)
     Demo.world0).1
  = Normal (mkToolResult [ImageBlock (js "image/png") (js "iVBORw==")]).
Proof. vm_compute. reflexivity. Qed.

(** The second scenario: a fenced definition, vector output. *)
Example render_svg_markdown_scenario :
  (render_mermaid Demo.host
     (mkToolArgs (js "```mermaid" ++ [10%N] ++ js "graph TD; A-->B;"
                    ++ [10%N] ++ js "```") svg true)
     Demo.world0).1
  = Normal (mkToolResult [TextBlock (js "<svg></svg>")]).
Proof. vm_compute. reflexivity. Qed.

Example dryrun_valid_scenario :
  (dryrun_mermaid Demo.host (mkToolArgs (js "graph TD; A-->B;") svg false)
     Demo.world0).1
  = Normal (mkToolResult [TextBlock statusOkText]).
Proof. vm_compute. reflexivity. Qed.

Lemma render_mermaid_failure_message_witness :
  let args := mkToolArgs (js "not a valid diagram !!!") png false in
  let w1 := (generateDiagram Demo.host (diagram args) (format args)
               (isMarkdown args) (clock Demo.world0) Demo.world0).2 in
  let w2 := (generateDiagram Demo.hostThrowingNonError (diagram args)
               (format args) (isMarkdown args) (clock Demo.world0)
               Demo.world0).2 in
  (generateDiagram Demo.host (diagram args) (format args) (isMarkdown args)
     (clock Demo.world0) Demo.world0
   = (Throw (ErrorInstance (js "Parse error on line 1")), w1)
   ∧ render_mermaid Demo.host args Demo.world0
     = (Throw (ErrorInstance
                 (generationFailedText ++ js ": "
                    ++ js "Parse error on line 1")), w1))
  ∧ (generateDiagram Demo.hostThrowingNonError (diagram args) (format args)
       (isMarkdown args) (clock Demo.world0) Demo.world0
     = (Throw (NonErrorValue 0), w2)
     ∧ render_mermaid Demo.hostThrowingNonError args Demo.world0
       = (Throw (ErrorInstance
                   (generationFailedText ++ js ": " ++ unknownErrorText)),
          w2)).
Proof.
  intros args w1 w2.
  assert (H1 : generateDiagram Demo.host (diagram args) (format args)
                 (isMarkdown args) (clock Demo.world0) Demo.world0
               = (Throw (ErrorInstance (js "Parse error on line 1")), w1))
    by (vm_compute; reflexivity).
  assert (H2 : generateDiagram Demo.hostThrowingNonError (diagram args)
                 (format args) (isMarkdown args) (clock Demo.world0)
                 Demo.world0
               = (Throw (NonErrorValue 0), w2))
    by (vm_compute; reflexivity).
  split.
  - split; [exact H1 |].
    exact (render_mermaid_failure_message Demo.host args Demo.world0 w1 _ H1).
  - split; [exact H2 |].
    exact (render_mermaid_failure_message Demo.hostThrowingNonError args
             Demo.world0 w2 _ H2).
Defined.

(** A thrown value that is not an [Error]: the placeholder. *)
Example render_mermaid_placeholder :
  (render_mermaid Demo.hostThrowingNonError
     (mkToolArgs (js "graph TD; A-->B;") png false) Demo.world0).1
  = Throw (ErrorInstance (generationFailedText ++ js ": " ++ unknownErrorText)).
Proof. vm_compute. reflexivity. Qed.

(** An [Error] with the empty message: the prefix is followed by nothing,
    not by the placeholder. *)
Example render_mermaid_empty_message (w w' : World) (h : Host) (args : ToolArgs) :
  generateDiagram h (diagram args) (format args) (isMarkdown args) (clock w) w
  = (Throw (ErrorInstance []), w') →
  render_mermaid h args w
  = (Throw (ErrorInstance (generationFailedText ++ js ": ")), w').
Proof.
  intros Hg. unfold render_mermaid. unfold_async. rewrite Hg.
  by rewrite app_nil_r.
Qed.

(** C1, at a failing input: [dryrun_mermaid] on a definition the engine
    rejects.  The call reports the failure, and ends without a deletion
    attempt on either staged path; the input file it wrote is still in
    the temporary directory. *)
Theorem cleanup_skipped_when_render_fails :
  let args := mkToolArgs (js "not a valid diagram !!!") svg false in
  let i := inputPathOf Demo.host (clock Demo.world0) in
  let o := outputPathOf Demo.host (clock Demo.world0) svg in
  let r := dryrun_mermaid Demo.host args Demo.world0 in
  r.1 = Normal (mkToolResult
                  [TextBlock (statusFailedText (js "Parse error on line 1"))])
  ∧ trace r.2 = [EvWriteFile i (js "not a valid diagram !!!");
                 EvRun i o svg NoopWrite NoopWrite]
  ∧ unlinkAttempts i (trace r.2) = 0
  ∧ unlinkAttempts o (trace r.2) = 0
  ∧ files r.2 !! i = Some (Demo.encodeUtf8 (js "not a valid diagram !!!")).
Proof. vm_compute. repeat split; reflexivity. Qed.

(** On the same host a valid definition is cleaned up: both deletions are
    attempted, once each, and no staged file is left. *)
Example cleanup_done_when_render_succeeds :
  let args := mkToolArgs (js "graph TD; A-->B;") svg false in
  let i := inputPathOf Demo.host (clock Demo.world0) in
  let o := outputPathOf Demo.host (clock Demo.world0) svg in
  let r := dryrun_mermaid Demo.host args Demo.world0 in
  unlinkAttempts i (trace r.2) = 1
  ∧ unlinkAttempts o (trace r.2) = 1
  ∧ files r.2 = ∅.
Proof. vm_compute. repeat split; reflexivity. Qed.

(** ** More on [split] and [trim] *)

Section SplitJoin.

Implicit Types sep s : jsstring.

Lemma split_rounds_nonempty n sep s : split_rounds n sep s ≠ [].
Proof. destruct n; simpl; [done |]. by destruct (indexOf sep s). Qed.

Lemma joinWith_cons sep p parts :
  parts ≠ [] → joinWith sep (p :: parts) = p ++ sep ++ joinWith sep parts.
Proof. by destruct parts. Qed.

Lemma joinWith_split_rounds n sep s : joinWith sep (split_rounds n sep s) = s.
Proof.
  revert s; induction n as [|n IH]; intros s; [done |].
  cbn [split_rounds]. destruct (indexOf sep s) as [i|] eqn:Hi; [| done].
  rewrite joinWith_cons by apply split_rounds_nonempty.
  rewrite IH. symmetry. apply occursAt_split.
  by apply indexOf_Some in Hi as [Hi _].
Qed.

(** X13: joining the pieces of [s.split(sep)] with [sep] gives [s] back. *)
Theorem split_join_roundtrip sep s : joinWith sep (split sep s) = s.
Proof.
  unfold split. destruct sep as [|c sep].
  - induction s as [|d s IH]; [done |].
    rewrite fmap_cons. destruct s as [|d' s]; [done |].
    rewrite joinWith_cons by done. rewrite IH. done.
  - apply joinWith_split_rounds.
Qed.

Lemma absent_take_first sep s i :
  sep ≠ [] → indexOf sep s = Some i → absent sep (take i s).
Proof.
  intros Hsep Hi j Hj. apply indexOf_Some in Hi as [_ Hmin].
  pose proof (occursAt_bound _ _ _ Hj) as Hb.
  apply occursAt_take, Hmin in Hj. rewrite length_take in Hb.
  assert (0 < length sep) by (destruct sep; [done | simpl; lia]). lia.
Qed.

Lemma split_rounds_pieces n sep s p :
  sep ≠ [] → length s ≤ n → p ∈ split_rounds n sep s → absent sep p.
Proof.
  intros Hsep. revert s; induction n as [|n IH]; intros s Hn Hp.
  - destruct s; [| simpl in Hn; lia]. apply list_elem_of_singleton in Hp as ->.
    apply indexOf_None. by apply indexOf_nil.
  - cbn [split_rounds] in Hp. destruct (indexOf sep s) as [i|] eqn:Hi.
    + apply elem_of_cons in Hp as [-> | Hp].
      * by apply absent_take_first.
      * apply IH in Hp; [done |]. rewrite length_drop.
        assert (0 < length sep) by (destruct sep; [done | simpl; lia]). lia.
    + apply list_elem_of_singleton in Hp as ->. by apply indexOf_None.
Qed.

(** X14: no piece of [s.split(sep)] contains the separator. *)
Theorem split_pieces_free_of_separator sep s p :
  sep ≠ [] → p ∈ split sep s → absent sep p.
Proof.
  intros Hsep Hp. rewrite split_rounds_length in Hp by done.
  by apply (split_rounds_pieces (length s) sep s).
Qed.

Lemma split_pieces_free_of_separator_witness :
  closingFence ≠ []
  ∧ js "b" ∈ split closingFence (js "a```b```c")
  ∧ absent closingFence (js "b").
Proof.
  assert (H1 : closingFence ≠ []) by done.
  assert (H2 : js "b" ∈ split closingFence (js "a```b```c"))
    by (replace (split closingFence (js "a```b```c"))
          with [js "a"; js "b"; js "c"] by reflexivity;
        rewrite !elem_of_cons; auto).
  split; [exact H1 | split; [exact H2 |]].
  exact (split_pieces_free_of_separator _ _ _ H1 H2).
Defined.

End SplitJoin.

Section Trim.

Implicit Types s t : jsstring.

Lemma trimStart_split s :
  ∃ lead, s = lead ++ trimStart s
          ∧ Forall (fun c => isWhiteSpace c = true) lead.
Proof.
  induction s as [|c s (lead & Heq & Hws)]; [by exists [] |].
  simpl. destruct (isWhiteSpace c) eqn:Hc.
  - exists (c :: lead). split; [by rewrite Heq at 1 | by constructor].
  - by exists [].
Qed.

Lemma trimStart_head s c : head (trimStart s) = Some c → isWhiteSpace c = false.
Proof.
  induction s as [|d s IH]; [done |]. simpl.
  destruct (isWhiteSpace d) eqn:Hd; [done |]. by intros [= <-].
Qed.

Lemma trimEnd_split s :
  ∃ trail, s = trimEnd s ++ trail
           ∧ Forall (fun c => isWhiteSpace c = true) trail.
Proof.
  destruct (trimStart_split (rev s)) as (lead & Heq & Hws).
  exists (rev lead). split.
  - unfold trimEnd. rewrite <- rev_app_distr, <- Heq. by rewrite rev_involutive.
  - apply Forall_forall. intros c Hc. rewrite Forall_forall in Hws.
    apply Hws. by apply list_elem_of_In, in_rev, list_elem_of_In.
Qed.

Lemma last_rev_head s : last (rev s) = head s.
Proof. destruct s as [|c s]; [done |]. simpl. apply last_snoc. Qed.

Lemma trimEnd_last s c : last (trimEnd s) = Some c → isWhiteSpace c = false.
Proof. unfold trimEnd. rewrite last_rev_head. apply trimStart_head. Qed.

Lemma trimEnd_head s c : head (trimEnd s) = Some c → head s = Some c.
Proof.
  destruct (trimEnd_split s) as (trail & Heq & _). intros Hc.
  rewrite Heq. by destruct (trimEnd s).
Qed.

Lemma trim_split s :
  ∃ lead trail,
    s = lead ++ trim s ++ trail
    ∧ Forall (fun c => isWhiteSpace c = true) lead
    ∧ Forall (fun c => isWhiteSpace c = true) trail.
Proof.
  destruct (trimStart_split s) as (lead & Hl & Hlws).
  destruct (trimEnd_split (trimStart s)) as (trail & Ht & Htws).
  exists lead, trail. split; [| done].
  unfold trim. by rewrite <- Ht.
Qed.

Lemma trim_head s c : head (trim s) = Some c → isWhiteSpace c = false.
Proof. intros Hc. by apply trimEnd_head, trimStart_head in Hc. Qed.

Lemma trim_last s c : last (trim s) = Some c → isWhiteSpace c = false.
Proof. apply trimEnd_last. Qed.

(** X15: [trim] removes white space from both ends and nothing else: the
    text is a run of white space, the trimmed text, and a run of white
    space, and the trimmed text neither starts nor ends with white
    space. *)
Theorem trim_strips_only_white_space s :
  (∃ lead trail,
     s = lead ++ trim s ++ trail
     ∧ Forall (fun c => isWhiteSpace c = true) lead
     ∧ Forall (fun c => isWhiteSpace c = true) trail)
  ∧ (∀ c, head (trim s) = Some c → isWhiteSpace c = false)
  ∧ (∀ c, last (trim s) = Some c → isWhiteSpace c = false).
Proof.
  split; [apply trim_split | split; intros c].
  - apply trim_head.
  - apply trim_last.
Qed.

End Trim.

(** ** More on the staged content *)

Section Parts.

Implicit Types s t u sep : jsstring.

Lemma partOf_refl s : partOf s s.
Proof. exists [], []. by rewrite app_nil_r. Qed.

Lemma partOf_trans t u s : partOf t u → partOf u s → partOf t s.
Proof.
  intros (p1 & q1 & ->) (p2 & q2 & ->).
  exists (p2 ++ p1), (q1 ++ q2). by rewrite <- !app_assoc.
Qed.

Lemma partOf_trim s : partOf (trim s) s.
Proof.
  destruct (trim_split s) as (lead & trail & Heq & _).
  by exists lead, trail.
Qed.

Lemma partOf_cutAt sep s : partOf (cutAt sep s) s.
Proof.
  unfold cutAt. destruct (indexOf sep s) as [i|]; [| apply partOf_refl].
  exists [], (drop i s). by rewrite take_drop.
Qed.

Lemma absent_partOf sep t s : absent sep s → partOf t s → absent sep t.
Proof.
  intros Habs (p & q & ->) i (pre & post & -> & _).
  apply (Habs (length (p ++ pre))). exists (p ++ pre), (post ++ q).
  split; [by rewrite <- !app_assoc | done].
Qed.

Lemma absent_cutAt sep s : sep ≠ [] → absent sep (cutAt sep s).
Proof.
  intros Hsep. unfold cutAt. destruct (indexOf sep s) as [i|] eqn:Hi.
  - by apply absent_take_first.
  - by apply indexOf_None.
Qed.

Lemma indexOf_firstOccurrence sep s i :
  indexOf sep s = Some i →
  firstOccurrence sep s (take i s) (drop (i + length sep) s).
Proof.
  intros Hi. apply indexOf_Some in Hi as [Hocc Hmin].
  split; [by apply occursAt_split |].
  intros j Hj. apply Hmin in Hj. rewrite length_take. lia.
Qed.

End Parts.

Section StagedContentMore.

Implicit Types s c : jsstring.

(** The staged content when the marker is there, from [indexOf]. *)
Lemma stagedContent_found s i :
  indexOf mermaidFence s = Some i →
  stagedContent s true
  = Normal (trim (cutAt closingFence
                    (cutAt mermaidFence (drop (i + length mermaidFence) s)))).
Proof.
  intros Hi. apply (stagedContent_marker s (take i s)).
  by apply indexOf_firstOccurrence.
Qed.

(** X10: whatever the flag, the staged content is a contiguous part of the
    submitted text: extraction only removes text around it. *)
Theorem staged_content_part_of_input s (md : bool) c :
  stagedContent s md = Normal c → partOf c s.
Proof.
  destruct md; [| intros [= <-]; apply partOf_refl].
  destruct (indexOf mermaidFence s) as [i|] eqn:Hi.
  - rewrite (stagedContent_found _ _ Hi). intros [= <-].
    eapply partOf_trans; [apply partOf_trim |].
    eapply partOf_trans; [apply partOf_cutAt |].
    eapply partOf_trans; [apply partOf_cutAt |].
    exists (take (i + length mermaidFence) s), [].
    by rewrite app_nil_r, take_drop.
  - apply indexOf_None in Hi. rewrite (stagedContent_no_marker _ Hi).
    intros [= <-]. apply partOf_refl.
Qed.

Lemma staged_content_part_of_input_witness :
  let s := js "intro ```mermaid graph TD; ``` outro" in
  stagedContent s true = Normal (js "graph TD;")
  ∧ partOf (js "graph TD;") s.
Proof.
  intros s.
  assert (H : stagedContent s true = Normal (js "graph TD;")) by reflexivity.
  split; [exact H |]. exact (staged_content_part_of_input s true _ H).
Defined.

(** X11: when the marker is recognised, the staged content holds no run of
    three backticks (so no fence and no marker), and neither starts nor
    ends with white space. *)
Theorem extracted_content_is_clean s c :
  includes mermaidFence s = true →
  stagedContent s true = Normal c →
  absent closingFence c
  ∧ (∀ u, head c = Some u → isWhiteSpace u = false)
  ∧ (∀ u, last c = Some u → isWhiteSpace u = false).
Proof.
  unfold includes. destruct (indexOf mermaidFence s) as [i|] eqn:Hi; [| done].
  intros _. rewrite (stagedContent_found _ _ Hi). intros [= <-].
  split; [| split; intros u].
  - eapply absent_partOf; [| apply partOf_trim].
    by apply absent_cutAt.
  - apply trim_head.
  - apply trim_last.
Qed.

Lemma extracted_content_is_clean_witness :
  let s := js "intro ```mermaid graph TD; ``` outro" in
  includes mermaidFence s = true
  ∧ stagedContent s true = Normal (js "graph TD;")
  ∧ absent closingFence (js "graph TD;")
  ∧ (∀ u, head (js "graph TD;") = Some u → isWhiteSpace u = false)
  ∧ (∀ u, last (js "graph TD;") = Some u → isWhiteSpace u = false).
Proof.
  intros s.
  assert (H1 : includes mermaidFence s = true) by reflexivity.
  assert (H2 : stagedContent s true = Normal (js "graph TD;")) by reflexivity.
  split; [exact H1 | split; [exact H2 |]].
  exact (extracted_content_is_clean s _ H1 H2).
Defined.

(** X12: extracting twice is extracting once: the staged content of a
    markdown-flagged text, submitted again with the flag, is staged
    unchanged. *)
Theorem extraction_idempotent s c :
  stagedContent s true = Normal c → stagedContent c true = Normal c.
Proof.
  destruct (indexOf mermaidFence s) as [i|] eqn:Hi.
  - rewrite (stagedContent_found _ _ Hi). intros [= <-].
    apply stagedContent_no_marker. intros j Hj.
    apply mermaidFence_closingFence in Hj. revert j Hj.
    eapply absent_partOf; [| apply partOf_trim].
    by apply absent_cutAt.
  - apply indexOf_None in Hi. rewrite (stagedContent_no_marker _ Hi).
    intros [= <-]. by apply stagedContent_no_marker.
Qed.

Lemma extraction_idempotent_witness :
  let s := js "intro ```mermaid graph TD; ``` outro" in
  stagedContent s true = Normal (js "graph TD;")
  ∧ stagedContent (js "graph TD;") true = Normal (js "graph TD;").
Proof.
  intros s.
  assert (H : stagedContent s true = Normal (js "graph TD;")) by reflexivity.
  split; [exact H |]. exact (extraction_idempotent s _ H).
Defined.

End StagedContentMore.

(** ** More on the pipeline *)

Section PipelineMore.

Variable h : Host.

Implicit Types d c i o : jsstring.

(** [generateDiagram] step by step, once the content is known. *)
Lemma generateDiagram_eq d (f : Format) (md : bool) (ts : Z) (w : World) c :
  let i := inputPathOf h ts in
  let o := outputPathOf h ts f in
  stagedContent d md = Normal c →
  generateDiagram h d f md ts w =
    match writeFault h i (files w) with
    | Some failure =>
        (Throw (writeError failure),
         match writeLeft failure with
         | Some remains =>
             setFiles (<[i := remains]> (files w))
               (record (EvWriteFile i c) w)
         | None => record (EvWriteFile i c) w
         end)
    | None =>
        let out := run h i o f (stagedWorld h i c w) in
        let w1 :=
          mkWorld (engineFiles out) (stdoutWrite w) (stderrWrite w) (clock w)
            (trace w ++ [EvWriteFile i c; EvRun i o f NoopWrite NoopWrite]) in
        match engineThrown out with
        | Some e => (Throw e, w1)
        | None =>
            (output ← readFile h o;
             promiseAll (catchIgnore (unlink h i))
                        (catchIgnore (unlink h o));;
             mret output) w1
        end
    end.
Proof.
  intros i o Hc. unfold generateDiagram. fold i o. rewrite Hc.
  unfold mbind at 1 2, Async_bind at 1 2, liftCompletion, writeFile.
  destruct (writeFault h i (files w)); [done |].
  unfold mbind at 1, Async_bind at 1. rewrite render_eq. cbv zeta.
  unfold stagedWorld. cbn [stdoutWrite stderrWrite clock trace setFiles record].
  rewrite <- app_assoc. cbn [app].
  by destruct (engineThrown _).
Qed.

(** X5: when the input file cannot be written, the call fails with the
    error of [fs.writeFile] itself; the engine is not entered and nothing
    is read or deleted (the trace gains the write attempt and no more);
    what the failed write left at the input path, nothing or a created or
    truncated file, is still there after the call. *)
Theorem write_failure_stops_pipeline d (f : Format) (md : bool) (ts : Z)
    (w : World) c (failure : WriteFailure) :
  let i := inputPathOf h ts in
  let r := generateDiagram h d f md ts w in
  stagedContent d md = Normal c →
  writeFault h i (files w) = Some failure →
  r.1 = Throw (writeError failure)
  ∧ trace r.2 = trace w ++ [EvWriteFile i c]
  ∧ files r.2 !! i = match writeLeft failure with
                     | Some remains => Some remains
                     | None => files w !! i
                     end.
Proof.
  intros i r Hc Hw. subst r. rewrite (generateDiagram_eq _ _ _ _ _ _ Hc).
  fold i. rewrite Hw. destruct (writeLeft failure) as [remains|]; cbn.
  - by rewrite lookup_insert_eq.
  - done.
Qed.


(** X4: the bytes returned are the content of the output file as the
    engine left it, and a failing deletion changes nothing of that: once
    the output has been read the call completes normally. *)
Theorem artifact_returned_despite_cleanup_failures d (f : Format)
    (md : bool) (ts : Z) (w : World) c (bytes : list byte) :
  let i := inputPathOf h ts in
  let o := outputPathOf h ts f in
  let out := run h i o f (stagedWorld h i c w) in
  stagedContent d md = Normal c →
  writeFault h i (files w) = None →
  engineThrown out = None →
  readFault h o (engineFiles out) = None →
  engineFiles out !! o = Some bytes →
  (generateDiagram h d f md ts w).1 = Normal bytes.
Proof.
  intros i o out Hc Hw He Hr Ho. rewrite (generateDiagram_eq _ _ _ _ _ _ Hc).
  fold i o. rewrite Hw. cbv zeta. fold out. rewrite He.
  unfold_async. rewrite Hr, Ho.
  repeat case_match; simplify_eq/=; done.
Qed.

(** X7: an engine that returns without having produced the output file
    makes the call fail at the read, and the files stay as the engine
    left them. *)
Theorem missing_artifact_fails d (f : Format) (md : bool) (ts : Z)
    (w : World) c :
  let i := inputPathOf h ts in
  let o := outputPathOf h ts f in
  let out := run h i o f (stagedWorld h i c w) in
  stagedContent d md = Normal c →
  writeFault h i (files w) = None →
  engineThrown out = None →
  engineFiles out !! o = None →
  (∃ e, (generateDiagram h d f md ts w).1 = Throw e)
  ∧ files (generateDiagram h d f md ts w).2 = engineFiles out.
Proof.
  intros i o out Hc Hw He Ho. rewrite (generateDiagram_eq _ _ _ _ _ _ Hc).
  fold i o. rewrite Hw. cbv zeta. fold out. rewrite He.
  unfold_async. rewrite Ho.
  destruct (readFault h o (engineFiles out)); split; by eauto.
Qed.

(** X3: after a call that completed normally on a host where the two
    deletions are not refused, neither staged path exists. *)
Theorem success_removes_staged_files d (f : Format) (md : bool) (ts : Z)
    (w w' : World) (bytes : list byte) :
  let i := inputPathOf h ts in
  let o := outputPathOf h ts f in
  generateDiagram h d f md ts w = (Normal bytes, w') →
  (∀ fs, unlinkFault h i fs = None) →
  (∀ fs, unlinkFault h o fs = None) →
  files w' !! i = None ∧ files w' !! o = None.
Proof.
  intros i o Hg Hi Ho. destruct (stagedContent_total d md) as [c Hc].
  rewrite (generateDiagram_eq _ _ _ _ _ _ Hc) in Hg. fold i o in Hg.
  destruct (writeFault h i (files w)); [done |]. cbv zeta in Hg.
  destruct (engineThrown _); [done |].
  unfold_async.
  destruct (readFault h o _); [done |].
  destruct (_ !! o) as [out_bytes|] eqn:Hout; [| done].
  cbn in Hg. rewrite Hi in Hg.
  set (fs0 := engineFiles _) in *.
  destruct (fs0 !! i) as [in_bytes|] eqn:Hin; cbn in Hg; rewrite Ho in Hg.
  - destruct (delete i fs0 !! o) eqn:Hdel; cbn in Hg; simplify_eq/=.
    + split; [| apply lookup_delete_eq].
      destruct (decide (i = o)) as [-> | Hne]; [apply lookup_delete_eq |].
      rewrite lookup_delete_ne by done. apply lookup_delete_eq.
    + split; [apply lookup_delete_eq | done].
  - rewrite Hout in Hg. cbn in Hg. simplify_eq/=.
    split; [| apply lookup_delete_eq].
    destruct (decide (i = o)) as [-> | Hne]; [apply lookup_delete_eq |].
    by rewrite lookup_delete_ne.
Qed.

(** X9: [dryrun_mermaid] runs the whole pipeline: it leaves the process
    in the state [render_mermaid] leaves it in on the same arguments,
    and it reports [ok] exactly when [render_mermaid] replies. *)
Theorem dryrun_same_effects_as_render (args : ToolArgs) (w : World) :
  (dryrun_mermaid h args w).2 = (render_mermaid h args w).2
  ∧ ((dryrun_mermaid h args w).1
       = Normal (mkToolResult [TextBlock statusOkText])
     ↔ ∃ reply, (render_mermaid h args w).1 = Normal reply).
Proof.
  unfold render_mermaid, dryrun_mermaid. unfold_async.
  destruct (generateDiagram _ _ _ _ _ w) as [[bytes | e] w1]; simpl.
  - split; [by repeat case_decide |]. split; [| done].
    intros _. repeat case_decide; by eexists.
  - split; [done |]. split; [| by intros [? ?]].
    destruct e; intros [= H]; vm_compute in H; discriminate.
Qed.

(** X2: a call that completes normally has done, in this order and once
    each: write the input, run the engine, read the output, try to
    delete the input, try to delete the output. *)
Theorem successful_call_sequence d (f : Format) (md : bool) (ts : Z)
    (w : World) (bytes : list byte) :
  let i := inputPathOf h ts in
  let o := outputPathOf h ts f in
  (generateDiagram h d f md ts w).1 = Normal bytes →
  ∃ c, stagedContent d md = Normal c
       ∧ trace (generateDiagram h d f md ts w).2
         = trace w ++ [EvWriteFile i c; EvRun i o f NoopWrite NoopWrite;
                       EvReadFile o; EvUnlink i; EvUnlink o].
Proof.
  intros i o Hg. destruct (generateDiagram_trace h d f md ts w) as (c & Hc & Htr).
  rewrite Hg in Htr. by exists c.
Qed.

End PipelineMore.

(** ** The pipeline on the demo hosts *)

Lemma failed_call_attempts_no_cleanup_witness :
  (generateDiagram Demo.host (js "not a valid diagram !!!") svg false
     1700000000000 Demo.world0).1
  = Throw (ErrorInstance (js "Parse error on line 1"))
  ∧ unlinkAttempts (inputPathOf Demo.host 1700000000000)
      (trace (generateDiagram Demo.host (js "not a valid diagram !!!") svg
                false 1700000000000 Demo.world0).2)
    = unlinkAttempts (inputPathOf Demo.host 1700000000000)
        (trace Demo.world0).
Proof.
  assert (H : (generateDiagram Demo.host (js "not a valid diagram !!!") svg
                 false 1700000000000 Demo.world0).1
              = Throw (ErrorInstance (js "Parse error on line 1")))
    by (vm_compute; reflexivity).
  split; [exact H |].
  exact (failed_call_attempts_no_cleanup Demo.host _ _ _ _ _ _ _ H).
Defined.

Lemma write_failure_stops_pipeline_witness :
  let d := js "graph TD; A-->B;" in
  let h := Faulty.diskFullHost in
  let i := inputPathOf h 1700000000000 in
  let failure :=
    mkWriteFailure
      (ErrorInstance (js "ENOSPC: no space left on device, write"))
      (Some []) in
  let r := generateDiagram h d png false 1700000000000 Demo.world0 in
  stagedContent d false = Normal d
  ∧ writeFault h i (files Demo.world0) = Some failure
  ∧ r.1 = Throw (ErrorInstance (js "ENOSPC: no space left on device, write"))
  ∧ trace r.2 = trace Demo.world0 ++ [EvWriteFile i d]
  ∧ files r.2 !! i = Some [].
Proof.
  intros d h i failure r.
  assert (H1 : stagedContent d false = Normal d) by reflexivity.
  assert (H2 : writeFault h i (files Demo.world0) = Some failure)
    by reflexivity.
  split; [exact H1 | split; [exact H2 |]].
  exact (write_failure_stops_pipeline h d png false 1700000000000
           Demo.world0 d failure H1 H2).
Defined.

(** A failure at the open: nothing is left at the input path. *)
Example write_refused_leaves_nothing :
  let h := Faulty.readOnlyHost in
  let r := generateDiagram h (js "graph TD; A-->B;") png false
             1700000000000 Demo.world0 in
  r.1 = Throw (ErrorInstance (js "EACCES: permission denied"))
  ∧ files r.2 = ∅.
Proof. vm_compute. split; reflexivity. Qed.


Lemma artifact_returned_despite_cleanup_failures_witness :
  let d := js "graph TD; A-->B;" in
  let h := Faulty.undeletableHost in
  let i := inputPathOf h 1700000000000 in
  let o := outputPathOf h 1700000000000 png in
  let out := run h i o png (stagedWorld h i d Demo.world0) in
  stagedContent d false = Normal d
  ∧ writeFault h i (files Demo.world0) = None
  ∧ engineThrown out = None
  ∧ readFault h o (engineFiles out) = None
  ∧ engineFiles out !! o = Some (Demo.artifact png)
  ∧ (generateDiagram h d png false 1700000000000 Demo.world0).1
    = Normal (Demo.artifact png).
Proof.
  intros d h i o out.
  assert (H1 : stagedContent d false = Normal d) by reflexivity.
  assert (H2 : writeFault h i (files Demo.world0) = None) by reflexivity.
  assert (H3 : engineThrown out = None) by (vm_compute; reflexivity).
  assert (H4 : readFault h o (engineFiles out) = None) by reflexivity.
  assert (H5 : engineFiles out !! o = Some (Demo.artifact png))
    by (vm_compute; reflexivity).
  split; [exact H1 | split; [exact H2 | split; [exact H3 |
    split; [exact H4 | split; [exact H5 |]]]]].
  exact (artifact_returned_despite_cleanup_failures h d png false
           1700000000000 Demo.world0 d _ H1 H2 H3 H4 H5).
Defined.

(** On the host that refuses deletions both staged files stay. *)
Example undeletable_files_stay :
  let h := Faulty.undeletableHost in
  let r := generateDiagram h (js "graph TD; A-->B;") png false
             1700000000000 Demo.world0 in
  r.1 = Normal (Demo.artifact png)
  ∧ is_Some (files r.2 !! inputPathOf h 1700000000000)
  ∧ is_Some (files r.2 !! outputPathOf h 1700000000000 png).
Proof. vm_compute. repeat split; by eexists. Qed.

Lemma missing_artifact_fails_witness :
  let d := js "graph TD; A-->B;" in
  let h := Faulty.silentHost in
  let i := inputPathOf h 1700000000000 in
  let o := outputPathOf h 1700000000000 svg in
  let out := run h i o svg (stagedWorld h i d Demo.world0) in
  stagedContent d false = Normal d
  ∧ writeFault h i (files Demo.world0) = None
  ∧ engineThrown out = None
  ∧ engineFiles out !! o = None
  ∧ (∃ e, (generateDiagram h d svg false 1700000000000 Demo.world0).1
          = Throw e)
  ∧ files (generateDiagram h d svg false 1700000000000 Demo.world0).2
    = engineFiles out.
Proof.
  intros d h i o out.
  assert (H1 : stagedContent d false = Normal d) by reflexivity.
  assert (H2 : writeFault h i (files Demo.world0) = None) by reflexivity.
  assert (H3 : engineThrown out = None) by reflexivity.
  assert (H4 : engineFiles out !! o = None) by (vm_compute; reflexivity).
  split; [exact H1 | split; [exact H2 | split; [exact H3 |
    split; [exact H4 |]]]].
  exact (missing_artifact_fails h d svg false 1700000000000 Demo.world0 d
           H1 H2 H3 H4).
Defined.

Lemma success_removes_staged_files_witness :
  let d := js "graph TD; A-->B;" in
  let i := inputPathOf Demo.host 1700000000000 in
  let o := outputPathOf Demo.host 1700000000000 pdf in
  let r := generateDiagram Demo.host d pdf false 1700000000000 Demo.world0 in
  r = (Normal (Demo.artifact pdf), r.2)
  ∧ (∀ fs, unlinkFault Demo.host i fs = None)
  ∧ (∀ fs, unlinkFault Demo.host o fs = None)
  ∧ files r.2 !! i = None ∧ files r.2 !! o = None.
Proof.
  intros d i o r.
  assert (H1 : r = (Normal (Demo.artifact pdf), r.2))
    by (vm_compute; reflexivity).
  assert (H2 : ∀ fs, unlinkFault Demo.host i fs = None) by reflexivity.
  assert (H3 : ∀ fs, unlinkFault Demo.host o fs = None) by reflexivity.
  split; [exact H1 | split; [exact H2 | split; [exact H3 |]]].
  exact (success_removes_staged_files Demo.host d pdf false 1700000000000
           Demo.world0 r.2 _ H1 H2 H3).
Defined.

Lemma successful_call_sequence_witness :
  let d := js "graph TD; A-->B;" in
  let i := inputPathOf Demo.host 1700000000000 in
  let o := outputPathOf Demo.host 1700000000000 svg in
  let r := generateDiagram Demo.host d svg false 1700000000000 Demo.world0 in
  r.1 = Normal (Demo.artifact svg)
  ∧ ∃ c, stagedContent d false = Normal c
         ∧ trace r.2
           = trace Demo.world0
               ++ [EvWriteFile i c; EvRun i o svg NoopWrite NoopWrite;
                   EvReadFile o; EvUnlink i; EvUnlink o].
Proof.
  intros d i o r.
  assert (H1 : r.1 = Normal (Demo.artifact svg)) by (vm_compute; reflexivity).
  split; [exact H1 |].
  exact (successful_call_sequence Demo.host d svg false 1700000000000
           Demo.world0 _ H1).
Defined.
